(** * Interruption handler: the decision function and the agent-state register

    A shallow embedding of [intelligent_interruption_handler.py]:
    the classes [AgentState] and [InterruptionHandler] with [__init__],
    [set_state], [is_speaking] and [should_interrupt]; [load_config]; and,
    of [IntelligentAgent], the methods that run without awaiting a
    collaborator, [_should_stop_speech] and [_handle_user_input].

    - A Python [str] is a sequence of Unicode code points: [list N].
    - A Python [set] of strings is a [gset str].
    - A method of the handler is a computation in a small monad that threads
      the handler object ([self]) and the records handed to the module's
      [logger], and that can raise. *)

From Stdlib Require Import NArith List Ascii String Bool Lia.
From stdpp Require Import base decidable countable list gmap.

Open Scope N_scope.
Open Scope list_scope.

(** ** Python strings *)

Module Str.

Definition char := N.
Definition str := list char.

(** A literal of the source, written as a Rocq string: every character of
    the literals used here is ASCII, so its byte is its code point. *)
Definition lit (s : string) : str :=
  List.map N_of_ascii (list_ascii_of_string s).

Arguments lit : simpl never.

(** Truth value of a [str]: the empty string is falsy. *)
Definition nonempty (s : str) : bool :=
  match s with [] => false | _ :: _ => true end.

(** [str.isspace] on one character, which is what [strip()] and [split()]
    without arguments test (CPython's [_PyUnicode_IsWhitespace]). *)
Definition isspace (c : char) : bool :=
  ((0x09 <=? c) && (c <=? 0x0D))
  || ((0x1C <=? c) && (c <=? 0x20))
  || (c =? 0x85) || (c =? 0xA0) || (c =? 0x1680)
  || ((0x2000 <=? c) && (c <=? 0x200A))
  || (c =? 0x2028) || (c =? 0x2029) || (c =? 0x202F)
  || (c =? 0x205F) || (c =? 0x3000).

Fixpoint lstrip (s : str) : str :=
  match s with
  | [] => []
  | c :: s' => if isspace c then lstrip s' else s
  end.

Definition rstrip (s : str) : str := rev (lstrip (rev s)).

(** [s.strip()] *)
Definition strip (s : str) : str := rstrip (lstrip s).

(** [s.split()]: the maximal runs of characters that are not whitespace, in
    order; [cur] is the run being read, last character first. *)
Fixpoint split_from (cur : str) (s : str) : list str :=
  match s with
  | [] => if nonempty cur then [rev cur] else []
  | c :: s' =>
      if isspace c
      then (if nonempty cur then rev cur :: split_from [] s'
            else split_from [] s')
      else split_from (c :: cur) s'
  end.

Definition split (s : str) : list str := split_from [] s.

Fixpoint startswith (s prefix : str) {struct prefix} : bool :=
  match prefix, s with
  | [], _ => true
  | _ :: _, [] => false
  | p :: prefix', c :: s' => (p =? c) && startswith s' prefix'
  end.

(** [sub in s] for two strings: [sub] occurs in [s] as a substring. *)
Fixpoint contains (sub s : str) : bool :=
  startswith s sub ||
  match s with
  | [] => false
  | _ :: s' => contains sub s'
  end.

(** Lower case of an ASCII character; other code points are returned as
    they are. *)
Definition ascii_lower_char (c : char) : char :=
  if (0x41 <=? c) && (c <=? 0x5A) then c + 0x20 else c.

Definition is_ascii (c : char) : bool := c <? 0x80.

(** [str.lower]. The Unicode case table behind it belongs to the Python
    runtime, not to this repository, so it is an interface: any function on
    strings that lowers the letters A to Z of an ASCII string and leaves the
    rest of it alone, and that leaves a string of whitespace alone. *)
Class Lower := {
  lower : str -> str;
  lower_ascii : forall s,
    forallb is_ascii s = true -> lower s = List.map ascii_lower_char s;
  lower_space : forall s,
    forallb isspace s = true -> lower s = s
}.

(** A string is in lower case when [lower] leaves it as it is. *)
Definition is_lower `{Lower} (s : str) : Prop := lower s = s.

End Str.

Export Str.

(** The instance used to run the model on ASCII inputs. *)
#[export, refine] Instance ascii_lower : Lower :=
  {| lower := List.map ascii_lower_char |}.
Proof.
  - reflexivity.
  - intros s Hs. induction s as [|c s IH]; [reflexivity|].
    simpl in Hs. apply andb_prop in Hs as [Hc Hs].
    simpl. rewrite IH by exact Hs. f_equal.
    unfold ascii_lower_char, isspace in *.
    destruct ((0x41 <=? c) && (c <=? 0x5A)) eqn:E; [|reflexivity].
    apply andb_prop in E as [E1 E2].
    apply N.leb_le in E1, E2.
    repeat (apply orb_prop in Hc as [Hc|Hc]);
      repeat match goal with
             | H : (_ && _) = true |- _ => apply andb_prop in H as [? ?]
             | H : (_ <=? _) = true |- _ => apply N.leb_le in H
             | H : (_ =? _) = true |- _ => apply N.eqb_eq in H
             end; lia.
Defined.

(** ** The handler object *)

(** [class AgentState(Enum)] *)
Inductive AgentState := SPEAKING | SILENT.

#[export] Instance AgentState_eq_dec : EqDecision AgentState.
Proof. solve_decision. Defined.

(** [AgentState.value] *)
Definition value (state : AgentState) : str :=
  match state with
  | SPEAKING => lit "speaking"
  | SILENT => lit "silent"
  end.

(** The attributes of an [InterruptionHandler]. [_speaking_lock], an
    [asyncio.Lock] that no method acquires, is not represented. *)
Record InterruptionHandler := {
  ignore_words : gset str;
  interrupt_words : gset str;
  agent_state : AgentState;
  _pending_interruptions : list str
}.

Definition default_ignore_words : list str :=
  [ lit "yeah"; lit "ok"; lit "okay"; lit "hmm"; lit "uh-huh"; lit "mhm";
    lit "right"; lit "aha"; lit "yep"; lit "sure"; lit "gotcha" ].

Definition command_words : list str :=
  [ lit "wait"; lit "stop"; lit "no"; lit "hold"; lit "pause"; lit "hold on" ].

(** [x or y] where [x] is [None] or a list: [None] and the empty list are
    falsy. *)
Definition or_list (x : option (list str)) (y : list str) : list str :=
  match x with
  | None => y
  | Some [] => y
  | Some (w :: l) => w :: l
  end.

(** [InterruptionHandler.__init__(self, ignore_words=None)] *)
Definition __init__ (ignore_words : option (list str)) : InterruptionHandler :=
  {| ignore_words := list_to_set (or_list ignore_words default_ignore_words);
     interrupt_words := list_to_set command_words;
     agent_state := SILENT;
     _pending_interruptions := [] |}.

(** ** Methods as computations *)

(** What a call can see and change: the handler it is called on and the
    records passed to the module-level [logger], oldest first. *)
Inductive Level := DEBUG | INFO.

Record World := {
  self : InterruptionHandler;
  logged : list (Level * str)
}.

Inductive Exn := AttributeError.

Inductive Result (A : Type) :=
| Return (a : A)
| Raise (e : Exn).

Arguments Return {A} a.
Arguments Raise {A} e.

Definition M (A : Type) : Type := World -> Result A * World.

Definition ret {A} (a : A) : M A := fun w => (Return a, w).

Definition raise {A} (e : Exn) : M A := fun w => (Raise e, w).

Definition bind {A B} (m : M A) (k : A -> M B) : M B :=
  fun w =>
    match m w with
    | (Return a, w') => k a w'
    | (Raise e, w') => (Raise e, w')
    end.

Notation "x <- m ;; k" := (bind m (fun x => k))
  (at level 100, m at next level, right associativity).
Notation "m ;;; k" := (bind m (fun _ => k))
  (at level 100, right associativity).

Definition get_self : M InterruptionHandler := fun w => (Return (self w), w).

Definition set_agent_state (state : AgentState) : M unit :=
  fun w =>
    (Return tt,
     {| self := {| ignore_words := ignore_words (self w);
                   interrupt_words := interrupt_words (self w);
                   agent_state := state;
                   _pending_interruptions := _pending_interruptions (self w) |};
        logged := logged w |}).

Definition log (level : Level) (msg : str) : M unit :=
  fun w => (Return tt, {| self := self w; logged := logged w ++ [(level, msg)] |}).

(** The value and the world a call ends with. *)
Definition result {A} (m : M A) (w : World) : Result A := fst (m w).
Definition after {A} (m : M A) (w : World) : World := snd (m w).

(** Truth value of a list: the empty list is falsy. *)
Definition nonempty_list {A} (l : list A) : bool :=
  match l with [] => false | _ :: _ => true end.

(** A value that may reach [should_interrupt]: a string or [None]. *)
Inductive pyobj := PyNone | PyStr (s : str).

(** Truth value, as [not user_input] tests it. *)
Definition truthy (o : pyobj) : bool :=
  match o with
  | PyNone => false
  | PyStr s => nonempty s
  end.

(** [{o}] inside an f-string. *)
Definition format (o : pyobj) : str :=
  match o with
  | PyNone => lit "None"
  | PyStr s => s
  end.

Section Methods.

Context `{Lower}.

(** [o.lower()]: [None] has no such attribute. *)
Definition call_lower (o : pyobj) : M str :=
  match o with
  | PyNone => raise AttributeError
  | PyStr s => ret (lower s)
  end.

(** [InterruptionHandler.set_state] *)
Definition set_state (state : AgentState) : M unit :=
  set_agent_state state ;;;
  log DEBUG (lit "Agent state changed to: " ++ value state).

(** [InterruptionHandler.is_speaking] *)
Definition is_speaking : M bool :=
  me <- get_self ;;
  ret (bool_decide (agent_state me = SPEAKING)).

(** [InterruptionHandler.should_interrupt]. The loop over
    [self.interrupt_words] returns at the first word, in the order the set is
    iterated, that occurs in the normalized input. *)
Definition should_interrupt (user_input : pyobj) : M bool :=
  if negb (truthy user_input) then ret false else
  lowered <- call_lower user_input ;;
  let normalized_input := strip lowered in
  let words := split normalized_input in
  speaking <- is_speaking ;;
  if negb speaking then
    log DEBUG (lit "Agent is silent, processing input: '"
               ++ format user_input ++ lit "'") ;;;
    ret true
  else
  me <- get_self ;;
  match List.find (fun word => contains word normalized_input)
                  (elements (interrupt_words me)) with
  | Some word =>
      log INFO (lit "Interrupt command detected: '" ++ word ++ lit "' in '"
                ++ format user_input ++ lit "'") ;;;
      ret true
  | None =>
      let non_ignore_words :=
        List.filter (fun w => negb (bool_decide (w ∈ ignore_words me))) words in
      if negb (nonempty_list non_ignore_words) then
        log DEBUG (lit "Ignoring filler input while speaking: '"
                   ++ format user_input ++ lit "'") ;;;
        ret false
      else
        log INFO (lit "Valid interruption detected: '"
                  ++ format user_input ++ lit "'") ;;;
        ret true
  end.

End Methods.

(** A handler as the constructor leaves it, with nothing logged yet. *)
Definition fresh (ignore_words : option (list str)) : World :=
  {| self := __init__ ignore_words; logged := [] |}.

(** The same handler after [set_state(state)], as the tests prepare it. *)
Definition prepared (ignore_words : option (list str)) (state : AgentState)
  : World :=
  after (set_state state) (fresh ignore_words).

(** ** Configuration from the environment *)

Definition comma : char := 0x2C.

(** [s.split(sep)] for a separator of one character: the pieces between the
    occurrences of [sep], empty pieces included; [cur] is the piece being
    read, last character first. *)
Fixpoint split_on_from (sep : char) (cur : str) (s : str) : list str :=
  match s with
  | [] => [rev cur]
  | c :: s' =>
      if c =? sep then rev cur :: split_on_from sep [] s'
      else split_on_from sep (c :: cur) s'
  end.

Definition split_on (sep : char) (s : str) : list str := split_on_from sep [] s.

(** [sep.join(words)], the inverse used to state what [split_on] reads
    back. *)
Fixpoint join (sep : char) (words : list str) : str :=
  match words with
  | [] => []
  | w :: rest =>
      match rest with
      | [] => w
      | _ :: _ => w ++ sep :: join sep rest
      end
  end.

(** [os.getenv(name, default)], given what the environment holds under
    [name], if anything. *)
Definition getenv (held : option str) (default : str) : str :=
  match held with
  | Some v => v
  | None => default
  end.

(** The dictionary [load_config] returns has the one key ['ignore_words']. *)
Record Config := { config_ignore_words : option (list str) }.

(** [load_config()], as a function of the environment variable
    [IGNORE_WORDS]. *)
Definition load_config (IGNORE_WORDS : option str) : Config :=
  let ignore_words_str := getenv IGNORE_WORDS [] in
  {| config_ignore_words :=
       if nonempty ignore_words_str
       then Some (List.map strip (split_on comma ignore_words_str))
       else None |}.

(** ** The agent around the handler *)

(** The handler of a world with another ignore set, to compare
    configurations. *)
Definition with_ignore_words (ign : gset str) (w : World) : World :=
  {| self := {| ignore_words := ign;
                interrupt_words := interrupt_words (self w);
                agent_state := agent_state (self w);
                _pending_interruptions := _pending_interruptions (self w) |};
     logged := logged w |}.

(** [set_state] called with each state of a list in turn. *)
Fixpoint set_states (states : list AgentState) : M unit :=
  match states with
  | [] => ret tt
  | state :: rest => set_state state ;;; set_states rest
  end.

(** The answer [should_interrupt] gives on a handler, read off a call with
    nothing logged before. *)
Definition would_interrupt `{Lower} (h : InterruptionHandler) (o : pyobj)
  : bool :=
  match result (should_interrupt o) {| self := h; logged := [] |} with
  | Return b => b
  | Raise _ => false
  end.

(** What follows the first element of a list that passes a test. *)
Fixpoint after_first {A} (f : A -> bool) (l : list A) : list A :=
  match l with
  | [] => []
  | x :: rest => if f x then rest else after_first f rest
  end.

Module IntelligentAgent.

(** An [asyncio.Task], known by a number. *)
Definition Task := nat.

(** What a method of the agent can see and change: the handler and the
    logger ([base]), the attributes [_current_speech_task] and
    [_transcription_buffer], and the tasks [cancel()] was called on, oldest
    first. The collaborators ([vad], [stt], [tts], [llm]) and the unused
    [_speech_queue] are not represented. *)
Record AgentWorld := {
  base : World;
  _current_speech_task : option Task;
  _transcription_buffer : list pyobj;
  cancelled : list Task
}.

Definition AM (A : Type) : Type := AgentWorld -> Result A * AgentWorld.

Definition aret {A} (a : A) : AM A := fun a0 => (Return a, a0).

Definition abind {A B} (m : AM A) (k : A -> AM B) : AM B :=
  fun a0 =>
    match m a0 with
    | (Return x, a1) => k x a1
    | (Raise e, a1) => (Raise e, a1)
    end.

Notation "x <~ m ;; k" := (abind m (fun x => k))
  (at level 100, m at next level, right associativity).
Notation "m ;;~ k" := (abind m (fun _ => k))
  (at level 100, right associativity).

(** A method of the handler, called on [self.interrupt_handler]. *)
Definition lift {A} (m : M A) : AM A :=
  fun a0 =>
    (fst (m (base a0)),
     {| base := snd (m (base a0));
        _current_speech_task := _current_speech_task a0;
        _transcription_buffer := _transcription_buffer a0;
        cancelled := cancelled a0 |}).

Definition get_buffer : AM (list pyobj) :=
  fun a0 => (Return (_transcription_buffer a0), a0).

Definition set_buffer (buffer : list pyobj) : AM unit :=
  fun a0 =>
    (Return tt,
     {| base := base a0;
        _current_speech_task := _current_speech_task a0;
        _transcription_buffer := buffer;
        cancelled := cancelled a0 |}).

Definition get_task : AM (option Task) :=
  fun a0 => (Return (_current_speech_task a0), a0).

Definition set_task (task : option Task) : AM unit :=
  fun a0 =>
    (Return tt,
     {| base := base a0;
        _current_speech_task := task;
        _transcription_buffer := _transcription_buffer a0;
        cancelled := cancelled a0 |}).

(** [task.cancel()] *)
Definition cancel (task : Task) : AM unit :=
  fun a0 =>
    (Return tt,
     {| base := base a0;
        _current_speech_task := _current_speech_task a0;
        _transcription_buffer := _transcription_buffer a0;
        cancelled := cancelled a0 ++ [task] |}).

(** [IntelligentAgent.__init__], with the logger as it is found. *)
Definition __init__ (ignore_words : option (list str))
                    (logged : list (Level * str)) : AgentWorld :=
  {| base := {| self := __init__ ignore_words; logged := logged |};
     _current_speech_task := None;
     _transcription_buffer := [];
     cancelled := [] |}.

Section Methods.

Context `{Lower}.

(** The loop of [_should_stop_speech] on a buffer that holds [buffer]:
    [pop(0)] leaves the rest in the object, and the body does not touch the
    buffer again, so the next test of the loop finds that rest. *)
Fixpoint _should_stop_speech_loop (buffer : list pyobj) : AM bool :=
  match buffer with
  | [] => aret false
  | transcription :: rest =>
      set_buffer rest ;;~
      stop <~ lift (should_interrupt transcription) ;;
      if stop then aret true else _should_stop_speech_loop rest
  end.

(** [IntelligentAgent._should_stop_speech] *)
Definition _should_stop_speech : AM bool :=
  buffer <~ get_buffer ;;
  _should_stop_speech_loop buffer.

(** [IntelligentAgent._handle_user_input]. The coroutine awaits nothing
    before its last statement, [await self._process_user_message(...)];
    that callee, which talks to the language model and starts the playback
    task, is a parameter. *)
Definition _handle_user_input (_process_user_message : pyobj -> AM unit)
                              (transcription : pyobj) : AM unit :=
  lift (log DEBUG (lit "Received transcription: '"
                   ++ format transcription ++ lit "'")) ;;~
  buffer <~ get_buffer ;;
  set_buffer (buffer ++ [transcription]) ;;~
  speaking <~ lift is_speaking ;;
  if speaking then
    should <~ lift (should_interrupt transcription) ;;
    if negb should then
      lift (log DEBUG (lit "Ignoring filler while speaking: '"
                       ++ format transcription ++ lit "'")) ;;~
      set_buffer []
    else
      lift (log INFO (lit "Interrupting speech for: '"
                      ++ format transcription ++ lit "'")) ;;~
      task <~ get_task ;;
      match task with
      | Some t => cancel t ;;~ set_task None
      | None => aret tt
      end ;;~
      _process_user_message transcription
  else
    _process_user_message transcription.

End Methods.

End IntelligentAgent.

(** ** Strings: basic facts *)

Section StrFacts.

Context `{Lower}.

Lemma lower_nil : lower [] = [].
Proof. rewrite lower_ascii; reflexivity. Qed.

Lemma lower_nonempty s : nonempty (lower s) = true -> nonempty s = true.
Proof.
  destruct s as [|c s]; [|reflexivity].
  rewrite lower_nil. discriminate.
Qed.

Lemma lstrip_whitespace s : forallb isspace s = true -> lstrip s = [].
Proof.
  induction s as [|c s IH]; simpl; [reflexivity|].
  intros Hs. apply andb_prop in Hs as [Hc Hs].
  rewrite Hc. exact (IH Hs).
Qed.

Lemma strip_whitespace s : forallb isspace s = true -> strip s = [].
Proof.
  intros Hs. unfold strip, rstrip.
  rewrite (lstrip_whitespace s Hs). reflexivity.
Qed.

Lemma contains_nil sub : nonempty sub = true -> contains sub [] = false.
Proof. destruct sub; [discriminate|reflexivity]. Qed.

Lemma lstrip_nonempty s : nonempty (lstrip s) = true -> nonempty s = true.
Proof. destruct s; [discriminate|reflexivity]. Qed.

Lemma strip_nonempty s : nonempty (strip s) = true -> nonempty s = true.
Proof.
  intros Hs. apply lstrip_nonempty. unfold strip in Hs.
  destruct (lstrip s) as [|c t]; [discriminate Hs|reflexivity].
Qed.

Lemma contains_nonempty sub s :
  nonempty sub = true -> contains sub s = true -> nonempty s = true.
Proof.
  intros Hsub Hc. destruct s; [|reflexivity].
  rewrite (contains_nil sub Hsub) in Hc. discriminate.
Qed.

Lemma split_nonempty s : nonempty_list (split s) = true -> nonempty s = true.
Proof. destruct s; [discriminate|reflexivity]. Qed.

Lemma command_words_nonempty c : c ∈ command_words -> nonempty c = true.
Proof.
  intros Hc. apply list_elem_of_In in Hc. simpl in Hc.
  repeat (destruct Hc as [<-|Hc]; [reflexivity|]). destruct Hc.
Qed.

End StrFacts.

(** ** Tokens and substrings *)

Section Tokens.

Lemma startswith_inv s sub :
  startswith s sub = true -> exists post, s = sub ++ post.
Proof.
  revert s. induction sub as [|p sub IH]; intros s Hs.
  - exists s. reflexivity.
  - destruct s as [|c s]; [discriminate Hs|]. simpl in Hs.
    apply andb_prop in Hs as [Hpc Hs]. apply N.eqb_eq in Hpc. subst c.
    destruct (IH s Hs) as [post ->]. exists post. reflexivity.
Qed.

Lemma startswith_app sub post : startswith (sub ++ post) sub = true.
Proof.
  induction sub as [|p sub IH]; [reflexivity|].
  simpl. rewrite N.eqb_refl. exact IH.
Qed.

Lemma contains_inv sub s :
  contains sub s = true -> exists pre post, s = pre ++ sub ++ post.
Proof.
  induction s as [|c s IH]; simpl; intros Hc.
  - rewrite orb_false_r in Hc.
    destruct (startswith_inv _ _ Hc) as [post ->]. exists [], post. reflexivity.
  - apply orb_prop in Hc as [Hc|Hc].
    + destruct (startswith_inv _ _ Hc) as [post ->].
      exists [], post. reflexivity.
    + destruct (IH Hc) as (pre & post & ->).
      exists (c :: pre), post. reflexivity.
Qed.

Lemma contains_app pre sub post : contains sub (pre ++ sub ++ post) = true.
Proof.
  induction pre as [|c pre IH].
  - simpl. destruct (sub ++ post) eqn:E; simpl; rewrite <- E;
      rewrite startswith_app; reflexivity.
  - simpl. rewrite IH. apply orb_true_r.
Qed.

(** A substring of the text that starts a longer needle. *)
Lemma contains_prefix a b s :
  contains (a ++ b) s = true -> contains a s = true.
Proof.
  intros Hc. destruct (contains_inv _ _ Hc) as (pre & post & ->).
  rewrite <- (app_assoc a b post). apply contains_app.
Qed.

(** Reading a run without whitespace extends the current token. *)
Lemma split_from_run run cur post :
  forallb (fun c => negb (isspace c)) run = true ->
  split_from cur (run ++ post) = split_from (rev run ++ cur) post.
Proof.
  revert cur. induction run as [|c run IH]; intros cur Hrun; [reflexivity|].
  simpl in Hrun. apply andb_prop in Hrun as [Hc Hrun].
  apply negb_true_iff in Hc. simpl. rewrite Hc.
  rewrite (IH (c :: cur) Hrun), <- app_assoc. reflexivity.
Qed.

(** A token that has been started is the head of what [split_from] returns. *)
Lemma split_from_head cur post :
  nonempty cur = true ->
  exists more rest, split_from cur post = rev (more ++ cur) :: rest.
Proof.
  revert cur. induction post as [|c post IH]; intros cur Hcur; simpl.
  - rewrite Hcur. exists [], []. reflexivity.
  - destruct (isspace c).
    + rewrite Hcur. exists [], (split_from [] post). reflexivity.
    + destruct (IH (c :: cur) eq_refl) as (more & rest & ->).
      exists (more ++ [c]), rest. rewrite <- app_assoc. reflexivity.
Qed.

(** A needle without whitespace that occurs in a text occurs in one of its
    tokens. *)
Lemma contains_token sub s cur :
  nonempty sub = true ->
  forallb (fun c => negb (isspace c)) sub = true ->
  contains sub s = true ->
  Exists (fun t => contains sub t = true) (split_from cur s).
Proof.
  intros Hsub Hrun Hc.
  destruct (contains_inv _ _ Hc) as (pre & post & ->). clear Hc.
  revert cur. induction pre as [|c pre IH]; intros cur.
  - simpl. rewrite (split_from_run sub cur post Hrun).
    destruct (split_from_head (rev sub ++ cur) post) as (more & rest & ->).
    { destruct sub as [|p sub]; [discriminate Hsub|].
      simpl. destruct (rev sub); reflexivity. }
    apply Exists_cons_hd.
    rewrite !rev_app_distr, rev_involutive, <- app_assoc.
    apply contains_app.
  - simpl. destruct (isspace c); [|apply IH].
    destruct (nonempty cur); [apply Exists_cons_tl|]; apply IH.
Qed.

End Tokens.

(** ** The paths through [should_interrupt] *)

Section Paths.

Context `{Lower}.

Ltac run := unfold result, after, should_interrupt, is_speaking, get_self,
                   call_lower, log, bind, ret, raise; cbn.

(** The guard [if not user_input] returns before anything else is done. *)
Lemma should_interrupt_falsy o w :
  truthy o = false -> should_interrupt o w = (Return false, w).
Proof. intros Ho. unfold should_interrupt. rewrite Ho. reflexivity. Qed.

Lemma should_interrupt_silent s w :
  nonempty s = true -> agent_state (self w) = SILENT ->
  result (should_interrupt (PyStr s)) w = Return true.
Proof.
  intros Hs Hw. run. rewrite Hs. cbn. rewrite Hw. reflexivity.
Qed.

(** While speaking, a non-empty input is decided by the command loop and
    then by the words that are left once the ignore words are removed. *)
Lemma should_interrupt_speaking s w :
  nonempty s = true -> agent_state (self w) = SPEAKING ->
  result (should_interrupt (PyStr s)) w =
  Return
    match List.find (fun word => contains word (strip (lower s)))
                    (elements (interrupt_words (self w))) with
    | Some _ => true
    | None =>
        nonempty_list
          (List.filter (fun t => negb (bool_decide (t ∈ ignore_words (self w))))
                       (split (strip (lower s))))
    end.
Proof.
  intros Hs Hw. run. rewrite Hs. cbn. rewrite Hw.
  rewrite (bool_decide_eq_true_2 _ eq_refl). cbn.
  destruct (List.find _ _); [reflexivity|].
  destruct (List.filter _ _); reflexivity.
Qed.

Lemma find_command_some (cmds : gset str) (text c : str) :
  c ∈ cmds -> contains c text = true ->
  exists word,
    List.find (fun word => contains word text) (elements cmds) = Some word.
Proof.
  intros Hin Hc.
  destruct (List.find _ _) as [word|] eqn:E; [exists word; reflexivity|].
  rewrite (find_none _ _ E c) in Hc; [discriminate Hc|].
  apply list_elem_of_In, elem_of_elements, Hin.
Qed.

Lemma find_command_none (cmds : gset str) (text : str) :
  (forall c, c ∈ cmds -> contains c text = false) ->
  List.find (fun word => contains word text) (elements cmds) = None.
Proof.
  intros Hno.
  destruct (List.find _ _) as [word|] eqn:E; [|reflexivity].
  apply find_some in E as [Hin Hc].
  apply list_elem_of_In, elem_of_elements in Hin.
  rewrite (Hno word Hin) in Hc. discriminate.
Qed.

Lemma filter_ignored_nil (ign : gset str) (words : list str) :
  Forall (fun t => t ∈ ign) words ->
  List.filter (fun t => negb (bool_decide (t ∈ ign))) words = [].
Proof.
  induction 1 as [|t words Ht _ IH]; simpl; [reflexivity|].
  rewrite (bool_decide_eq_true_2 _ Ht). exact IH.
Qed.

Lemma filter_ignored_nonempty (ign : gset str) (words : list str) :
  Exists (fun t => t ∉ ign) words ->
  nonempty_list (List.filter (fun t => negb (bool_decide (t ∈ ign))) words)
  = true.
Proof.
  induction 1 as [t words Ht|t words _ IH]; simpl.
  - rewrite (bool_decide_eq_false_2 _ Ht). reflexivity.
  - destruct (negb _); [reflexivity|exact IH].
Qed.

Lemma should_interrupt_after o w :
  self (after (should_interrupt o) w) = self w.
Proof.
  run. destruct (truthy o); [|reflexivity]. cbn.
  destruct o as [|s]; [reflexivity|]. cbn.
  destruct (bool_decide _); cbn; [|reflexivity].
  destruct (List.find _ _); [reflexivity|].
  destruct (List.filter _ _); reflexivity.
Qed.

End Paths.

(** ** Properties of the decision and of the register *)

Section Decision.

Context `{Lower}.

(** C1 (amended): on an input that is empty or made of whitespace only,
    [should_interrupt] returns [True] exactly when the input is not empty and
    the agent is silent. So the empty string gives [False] in both modes and a
    whitespace-only string gives [False] while the agent is speaking; a
    whitespace-only string such as three spaces is not empty, and while the
    agent is silent it gives [True]. *)
Theorem empty_or_whitespace_input (w : World) (s : str) :
  forallb isspace s = true ->
  interrupt_words (self w) = list_to_set command_words ->
  result (should_interrupt (PyStr s)) w =
  Return (nonempty s && bool_decide (agent_state (self w) = SILENT)).
Proof.
  intros Hspace Hcmds.
  destruct (nonempty s) eqn:Hs.
  2: { unfold result. rewrite should_interrupt_falsy by exact Hs. reflexivity. }
  destruct (agent_state (self w)) eqn:Hw.
  - rewrite (should_interrupt_speaking s w Hs Hw).
    rewrite (lower_space s Hspace), (strip_whitespace s Hspace).
    rewrite find_command_none; [reflexivity|].
    intros c Hc. apply contains_nil, command_words_nonempty.
    rewrite Hcmds in Hc. apply elem_of_list_to_set in Hc. exact Hc.
  - rewrite (should_interrupt_silent s w Hs Hw). reflexivity.
Qed.

(** C2: while the agent is speaking, an input whose normalized form
    (lowercased, then stripped) contains one of the six command strings as a
    substring makes [should_interrupt] return [True], whatever the other
    words of the input and whatever the ignore set. *)
Theorem command_word_interrupts (w : World) (s c : str) :
  agent_state (self w) = SPEAKING ->
  interrupt_words (self w) = list_to_set command_words ->
  c ∈ command_words ->
  contains c (strip (lower s)) = true ->
  result (should_interrupt (PyStr s)) w = Return true.
Proof.
  intros Hw Hcmds Hc Hsub.
  assert (Hs : nonempty s = true).
  { apply lower_nonempty, strip_nonempty.
    exact (contains_nonempty c _ (command_words_nonempty c Hc) Hsub). }
  rewrite (should_interrupt_speaking s w Hs Hw).
  destruct (find_command_some (interrupt_words (self w)) (strip (lower s)) c)
    as [word ->]; [|exact Hsub|reflexivity].
  rewrite Hcmds. apply elem_of_list_to_set, Hc.
Qed.

(** C3 (amended): while the agent is speaking, if the normalized form of the
    input contains no command string as a substring and every
    whitespace-delimited token of it is in the handler's ignore set, then
    [should_interrupt] returns [False]. *)
Theorem only_ignore_words_ignored (w : World) (s : str) :
  agent_state (self w) = SPEAKING ->
  interrupt_words (self w) = list_to_set command_words ->
  Forall (fun c => contains c (strip (lower s)) = false) command_words ->
  Forall (fun t => t ∈ ignore_words (self w)) (split (strip (lower s))) ->
  result (should_interrupt (PyStr s)) w = Return false.
Proof.
  intros Hw Hcmds Hno Hall.
  destruct (nonempty s) eqn:Hs.
  2: { unfold result. rewrite should_interrupt_falsy by exact Hs. reflexivity. }
  rewrite (should_interrupt_speaking s w Hs Hw).
  rewrite find_command_none.
  - rewrite (filter_ignored_nil _ _ Hall). reflexivity.
  - intros c Hc. rewrite Hcmds in Hc. apply elem_of_list_to_set in Hc.
    rewrite Forall_forall in Hno. exact (Hno c Hc).
Qed.

(** C4: while the agent is silent, every non-empty input makes
    [should_interrupt] return [True]. The handler's command set and ignore
    set are arbitrary here: the result does not depend on them. *)
Theorem silent_nonempty_is_actionable (w : World) (s : str) :
  agent_state (self w) = SILENT ->
  s <> [] ->
  result (should_interrupt (PyStr s)) w = Return true.
Proof.
  intros Hw Hs. apply should_interrupt_silent; [|exact Hw].
  destruct s; [contradiction|reflexivity].
Qed.

(** C5: while the agent is speaking, if the normalized form of the input
    contains no command string as a substring and at least one of its
    whitespace-delimited tokens is not in the ignore set, then
    [should_interrupt] returns [True]. *)
Theorem non_ignore_word_interrupts (w : World) (s : str) :
  agent_state (self w) = SPEAKING ->
  interrupt_words (self w) = list_to_set command_words ->
  Forall (fun c => contains c (strip (lower s)) = false) command_words ->
  Exists (fun t => t ∉ ignore_words (self w)) (split (strip (lower s))) ->
  result (should_interrupt (PyStr s)) w = Return true.
Proof.
  intros Hw Hcmds Hno Hex.
  assert (Hs : nonempty s = true).
  { apply lower_nonempty, strip_nonempty, split_nonempty.
    destruct Hex; reflexivity. }
  rewrite (should_interrupt_speaking s w Hs Hw).
  destruct (List.find _ _); [reflexivity|].
  rewrite (filter_ignored_nonempty _ _ Hex). reflexivity.
Qed.

(** What the constructor stores: the configured words as they are given
    (the default words when the list is omitted or empty), none added, none
    left out and none converted. *)
Lemma init_ignore_words_membership (cfg : option (list str)) (t : str) :
  t ∈ ignore_words (__init__ cfg) <-> t ∈ or_list cfg default_ignore_words.
Proof. unfold __init__. simpl. apply elem_of_list_to_set. Qed.

(** C7: for every handler and every input, a string or [None],
    [should_interrupt] returns a boolean; it does not raise. *)
Theorem should_interrupt_never_raises (w : World) (user_input : pyobj) :
  exists b : bool, result (should_interrupt user_input) w = Return b.
Proof.
  destruct (truthy user_input) eqn:Ht.
  2: { exists false. unfold result.
       rewrite should_interrupt_falsy by exact Ht. reflexivity. }
  destruct user_input as [|s]; [discriminate Ht|]. simpl in Ht.
  destruct (agent_state (self w)) eqn:Hw.
  - rewrite (should_interrupt_speaking s w Ht Hw). eexists. reflexivity.
  - rewrite (should_interrupt_silent s w Ht Hw). eexists. reflexivity.
Qed.

(** C8: a call of [should_interrupt] leaves the handler as it was: the agent
    state, the ignore set and the command set after the call are those before
    it. *)
Theorem should_interrupt_keeps_handler (w : World) (user_input : pyobj) :
  self (after (should_interrupt user_input) w) = self w.
Proof. apply should_interrupt_after. Qed.

(** C9: a handler just constructed is not speaking, and after
    [set_state(SPEAKING)] followed by [set_state(SILENT)] the handler is not
    speaking. *)
Theorem state_round_trip (cfg : option (list str)) (w : World) :
  result is_speaking (fresh cfg) = Return false /\
  result (set_state SPEAKING ;;; set_state SILENT ;;; is_speaking) w
  = Return false.
Proof. split; reflexivity. Qed.

(** C10: constructing the handler with an empty list of ignore words gives
    the handler that omitting the argument gives, and no argument of the
    constructor gives an empty ignore set. *)
Theorem empty_ignore_list_is_default :
  __init__ (Some []) = __init__ None /\
  forall cfg : option (list str), ignore_words (__init__ cfg) <> ∅.
Proof.
  split; [reflexivity|].
  intros cfg Hempty.
  assert (Hin : exists t, t ∈ ignore_words (__init__ cfg)).
  { destruct cfg as [[|x l]|]; eexists; apply elem_of_list_to_set;
      simpl; left. }
  destruct Hin as [t Ht]. rewrite Hempty in Ht.
  exact (not_elem_of_empty t Ht).
Qed.

End Decision.

(** ** Configurations whose ignore words hold no command *)

Section Configurations.

Context `{Lower}.

(** A command that occurs in a text occurs, or its first word does, inside a
    single token of the text. *)
Lemma command_in_token (c text : str) :
  c ∈ command_words -> contains c text = true ->
  exists c', c' ∈ command_words /\
             Exists (fun t => contains c' t = true) (split text).
Proof.
  intros Hc Hsub. apply list_elem_of_In in Hc. simpl in Hc.
  assert (Hhold : contains (lit "hold") text = true ->
                  Exists (fun t => contains (lit "hold") t = true) (split text)).
  { apply contains_token; reflexivity. }
  destruct Hc as [<-|[<-|[<-|[<-|[<-|[<-|[]]]]]]].
  1-3, 5:
    match type of Hsub with contains ?c0 _ = true => exists c0 end;
    (split; [apply list_elem_of_In; simpl; tauto|]);
    apply contains_token; [reflexivity|reflexivity|exact Hsub].
  - exists (lit "hold"). split; [apply list_elem_of_In; simpl; tauto|].
    exact (Hhold Hsub).
  - exists (lit "hold"). split; [apply list_elem_of_In; simpl; tauto|].
    apply Hhold. exact (contains_prefix (lit "hold") (lit " on") text Hsub).
Qed.

(** When no ignore word contains a command, an input made of ignore words
    only is ignored while the agent is speaking: no command can occur in
    it. *)
Lemma ignore_words_without_commands (w : World) (s : str) :
  agent_state (self w) = SPEAKING ->
  interrupt_words (self w) = list_to_set command_words ->
  (forall t c, t ∈ ignore_words (self w) -> c ∈ command_words ->
               contains c t = false) ->
  Forall (fun t => t ∈ ignore_words (self w)) (split (strip (lower s))) ->
  result (should_interrupt (PyStr s)) w = Return false.
Proof.
  intros Hw Hcmds Hsafe Hall.
  destruct (nonempty s) eqn:Hs.
  2: { unfold result. rewrite should_interrupt_falsy by exact Hs. reflexivity. }
  rewrite (should_interrupt_speaking s w Hs Hw).
  rewrite find_command_none.
  - rewrite (filter_ignored_nil _ _ Hall). reflexivity.
  - intros c Hc. rewrite Hcmds in Hc. apply elem_of_list_to_set in Hc.
    destruct (contains c (strip (lower s))) eqn:Hsub; [|reflexivity].
    destruct (command_in_token c _ Hc Hsub) as (c' & Hc' & Hex).
    apply Exists_exists in Hex as (t & Ht & Hsub').
    rewrite Forall_forall in Hall.
    rewrite (Hsafe t c' (Hall t Ht) Hc') in Hsub'. discriminate Hsub'.
Qed.

(** The default ignore words are such a configuration. *)
Lemma default_ignore_words_hold_no_command (t c : str) :
  t ∈ ignore_words (__init__ None) -> c ∈ command_words ->
  contains c t = false.
Proof.
  intros Ht Hc. apply elem_of_list_to_set, list_elem_of_In in Ht.
  apply list_elem_of_In in Hc. simpl in Ht, Hc.
  repeat (destruct Ht as [<-|Ht];
          [repeat (destruct Hc as [<-|Hc]; [reflexivity|]); destruct Hc|]).
  destruct Ht.
Qed.

(** With the default ignore words, an input whose tokens are all ignore
    words is ignored while the agent is speaking. *)
Lemma default_only_ignore_words_ignored (w : World) (s : str) :
  agent_state (self w) = SPEAKING ->
  interrupt_words (self w) = list_to_set command_words ->
  ignore_words (self w) = ignore_words (__init__ None) ->
  Forall (fun t => t ∈ ignore_words (self w)) (split (strip (lower s))) ->
  result (should_interrupt (PyStr s)) w = Return false.
Proof.
  intros Hw Hcmds Hign Hall.
  apply ignore_words_without_commands; try assumption.
  intros t c Ht. rewrite Hign in Ht.
  exact (default_ignore_words_hold_no_command t c Ht).
Qed.

End Configurations.

(** ** The decision on the inputs of the test suite and on others *)

(** C1: a handler just constructed (the agent is silent) answers [True] to
    an input of three spaces. *)
Lemma whitespace_while_silent_is_actionable :
  agent_state (self (fresh None)) = SILENT /\
  forallb isspace (lit "   ") = true /\
  result (should_interrupt (PyStr (lit "   "))) (fresh None) = Return true.
Proof. repeat split; reflexivity. Qed.

Lemma empty_or_whitespace_input_witness :
  result (should_interrupt (PyStr (lit ""))) (prepared None SILENT)
  = Return false /\
  result (should_interrupt (PyStr (lit ""))) (prepared None SPEAKING)
  = Return false /\
  result (should_interrupt (PyStr (lit "   "))) (prepared None SPEAKING)
  = Return false /\
  result (should_interrupt (PyStr (lit "   "))) (prepared None SILENT)
  = Return true.
Proof.
  split; [|split; [|split]].
  - exact (empty_or_whitespace_input
             (prepared None SILENT) (lit "") eq_refl eq_refl).
  - exact (empty_or_whitespace_input
             (prepared None SPEAKING) (lit "") eq_refl eq_refl).
  - exact (empty_or_whitespace_input
             (prepared None SPEAKING) (lit "   ") eq_refl eq_refl).
  - exact (empty_or_whitespace_input
             (prepared None SILENT) (lit "   ") eq_refl eq_refl).
Defined.

Lemma command_word_interrupts_witness :
  split (strip (lower (lit "Yeah okay but WAIT")))
  = [lit "yeah"; lit "okay"; lit "but"; lit "wait"] /\
  result (should_interrupt (PyStr (lit "Yeah okay but WAIT")))
         (prepared None SPEAKING)
  = Return true.
Proof.
  split; [reflexivity|].
  apply (command_word_interrupts
           (prepared None SPEAKING) (lit "Yeah okay but WAIT") (lit "wait")).
  - reflexivity.
  - reflexivity.
  - apply list_elem_of_In. simpl. tauto.
  - reflexivity.
Defined.

(** C3: with the ignore word "nope" configured, the only token of the input
    "nope" is in the ignore set, and the handler still answers [True] while
    speaking, because the command "no" occurs in the input. *)
Lemma configured_ignore_word_interrupts :
  agent_state (self (prepared (Some [lit "nope"]) SPEAKING)) = SPEAKING /\
  split (strip (lower (lit "nope"))) = [lit "nope"] /\
  bool_decide
    (lit "nope" ∈ ignore_words (self (prepared (Some [lit "nope"]) SPEAKING)))
  = true /\
  contains (lit "no") (strip (lower (lit "nope"))) = true /\
  result (should_interrupt (PyStr (lit "nope")))
         (prepared (Some [lit "nope"]) SPEAKING)
  = Return true.
Proof. repeat split; vm_compute; reflexivity. Qed.

Lemma only_ignore_words_ignored_witness :
  split (strip (lower (lit "Hmm right uh-huh")))
  = [lit "hmm"; lit "right"; lit "uh-huh"] /\
  result (should_interrupt (PyStr (lit "Hmm right uh-huh")))
         (prepared None SPEAKING)
  = Return false.
Proof.
  split; [reflexivity|].
  apply (only_ignore_words_ignored
           (prepared None SPEAKING) (lit "Hmm right uh-huh")).
  - reflexivity.
  - reflexivity.
  - repeat constructor.
  - apply (bool_decide_unpack _). vm_compute. exact I.
Defined.

Lemma silent_nonempty_is_actionable_witness :
  result (should_interrupt (PyStr (lit "yeah"))) (prepared None SILENT)
  = Return true.
Proof.
  apply (silent_nonempty_is_actionable (prepared None SILENT) (lit "yeah")).
  - reflexivity.
  - discriminate.
Defined.

Lemma non_ignore_word_interrupts_witness :
  split (strip (lower (lit "that's really interesting")))
  = [lit "that's"; lit "really"; lit "interesting"] /\
  result (should_interrupt (PyStr (lit "that's really interesting")))
         (prepared None SPEAKING)
  = Return true.
Proof.
  split; [reflexivity|].
  apply (non_ignore_word_interrupts
           (prepared None SPEAKING) (lit "that's really interesting")).
  - reflexivity.
  - reflexivity.
  - repeat constructor.
  - apply (bool_decide_unpack _). vm_compute. exact I.
Defined.

(** C6: every stored ignore word should be lowercase, so that a configured
    word matches whatever its case, as the utterance is lowercased before
    matching. The constructor does not lowercase: a configured ignore word
    "Yeah" is stored with its capital letter; it is not lowercase, and the
    utterances "yeah" and "Yeah", both normalized to "yeah", are not ignored
    while the agent is speaking. *)
Lemma capitalised_ignore_word_is_kept :
  bool_decide (lit "Yeah" ∈ ignore_words (__init__ (Some [lit "Yeah"])))
  = true /\
  lower (lit "Yeah") = lit "yeah" /\
  bool_decide (lower (lit "Yeah") = lit "Yeah") = false /\
  result (should_interrupt (PyStr (lit "yeah")))
         (prepared (Some [lit "Yeah"]) SPEAKING)
  = Return true /\
  result (should_interrupt (PyStr (lit "Yeah")))
         (prepared (Some [lit "Yeah"]) SPEAKING)
  = Return true.
Proof. repeat split; vm_compute; reflexivity. Qed.

(** ** The assertions of [test_interruption_handler.py], run on the model *)

Example test_ignore_filler_while_speaking :
  List.map (fun s => result (should_interrupt (PyStr (lit s)))
                            (prepared None SPEAKING))
           ["yeah"; "okay"; "hmm"; "uh-huh"; "right"; "yeah okay";
            "hmm right uh-huh"]%string
  = List.repeat (Return false) 7.
Proof. vm_compute. reflexivity. Qed.

Example test_respond_to_filler_when_silent :
  List.map (fun s => result (should_interrupt (PyStr (lit s)))
                            (prepared None SILENT))
           ["yeah"; "okay"; "hmm"]%string
  = List.repeat (Return true) 3.
Proof. vm_compute. reflexivity. Qed.

Example test_interrupt_on_command_words :
  List.map (fun s => result (should_interrupt (PyStr (lit s)))
                            (prepared None SPEAKING))
           ["stop"; "wait"; "no"; "hold on"; "no stop"; "please wait";
            "hold on a second"]%string
  = List.repeat (Return true) 7.
Proof. vm_compute. reflexivity. Qed.

Example test_mixed_input :
  List.map (fun s => result (should_interrupt (PyStr (lit s)))
                            (prepared None SPEAKING))
           ["yeah okay but wait"; "hmm actually stop"; "right but no";
            "yeah that's interesting"; "okay tell me more";
            "hmm what about this"]%string
  = List.repeat (Return true) 6.
Proof. vm_compute. reflexivity. Qed.

Example test_case_insensitivity :
  List.map (fun s => result (should_interrupt (PyStr (lit s)))
                            (prepared None SPEAKING))
           ["YEAH"; "Yeah"; "yEaH"; "STOP"; "Stop"]%string
  = [Return false; Return false; Return false; Return true; Return true].
Proof. vm_compute. reflexivity. Qed.

Example test_custom_ignore_words :
  List.map (fun s => result (should_interrupt (PyStr (lit s)))
                            (prepared (Some [lit "custom"; lit "filler";
                                             lit "word"]) SPEAKING))
           ["custom"; "filler word"; "yeah"]%string
  = [Return false; Return false; Return true].
Proof. vm_compute. reflexivity. Qed.

Example test_full_scenario_flow :
  result (set_state SPEAKING ;;;
          result1 <- should_interrupt (PyStr (lit "yeah")) ;;
          set_state SILENT ;;;
          result2 <- should_interrupt (PyStr (lit "yeah")) ;;
          set_state SPEAKING ;;;
          result3 <- should_interrupt (PyStr (lit "wait")) ;;
          ret (result1, result2, result3))
         (fresh None)
  = Return (false, true, true).
Proof. vm_compute. reflexivity. Qed.

(** What the calls of the scenario hand to the logger. *)
Example test_full_scenario_flow_logged :
  logged (after (set_state SPEAKING ;;;
                 should_interrupt (PyStr (lit "yeah")) ;;;
                 set_state SILENT ;;;
                 should_interrupt (PyStr (lit "yeah")))
                (fresh None))
  = [ (DEBUG, lit "Agent state changed to: speaking");
      (DEBUG, lit "Ignoring filler input while speaking: 'yeah'");
      (DEBUG, lit "Agent state changed to: silent");
      (DEBUG, lit "Agent is silent, processing input: 'yeah'") ].
Proof. vm_compute. reflexivity. Qed.

(** ** Tokens of the normalized input *)

Section TokenFacts.

Lemma forallb_rev {A} (f : A -> bool) (l : list A) :
  forallb f (rev l) = forallb f l.
Proof.
  induction l as [|x l IH]; [reflexivity|].
  simpl. rewrite forallb_app, IH. simpl. rewrite andb_true_r. apply andb_comm.
Qed.

Lemma nonempty_rev (s : str) : nonempty (rev s) = nonempty s.
Proof. destruct s as [|c s]; [reflexivity|]. simpl. destruct (rev s); reflexivity. Qed.

(** What [split()] returns: words that are not empty and hold no
    whitespace. *)
Lemma split_from_tokens s : forall cur,
  forallb (fun c => negb (isspace c)) cur = true ->
  Forall (fun t => nonempty t = true /\
                   forallb (fun c => negb (isspace c)) t = true)
         (split_from cur s).
Proof.
  induction s as [|c s IH]; intros cur Hcur; simpl.
  - destruct (nonempty cur) eqn:E; constructor; [|constructor].
    rewrite nonempty_rev, forallb_rev. split; assumption.
  - destruct (isspace c) eqn:Hc.
    + destruct (nonempty cur) eqn:E; [constructor|]; try (apply IH; reflexivity).
      rewrite nonempty_rev, forallb_rev. split; assumption.
    + apply IH. simpl. rewrite Hc, Hcur. reflexivity.
Qed.

(** A token is a piece of the text it is split from. *)
Lemma split_from_substring s : forall cur t,
  In t (split_from cur s) ->
  exists pre post, rev cur ++ s = pre ++ t ++ post.
Proof.
  induction s as [|c s IH]; intros cur t Ht; simpl in Ht.
  - destruct (nonempty cur); [|destruct Ht].
    destruct Ht as [<-|[]]. exists [], []. rewrite !app_nil_r. reflexivity.
  - destruct (isspace c).
    + assert (Hrest : In t (split_from [] s) ->
                      exists pre post, rev cur ++ c :: s = pre ++ t ++ post).
      { intros Hin. destruct (IH [] t Hin) as (pre & post & E).
        simpl in E. exists (rev cur ++ c :: pre), post.
        rewrite E, <- app_assoc. reflexivity. }
      destruct (nonempty cur); [|exact (Hrest Ht)].
      destruct Ht as [<-|Ht]; [|exact (Hrest Ht)].
      exists [], (c :: s). reflexivity.
    + destruct (IH (c :: cur) t Ht) as (pre & post & E).
      exists pre, post. rewrite <- E. simpl. rewrite <- app_assoc. reflexivity.
Qed.

Lemma contains_in_token sub t s :
  In t (split s) -> contains sub t = true -> contains sub s = true.
Proof.
  intros Ht Hsub.
  destruct (split_from_substring s [] t Ht) as (pre & post & E).
  destruct (contains_inv _ _ Hsub) as (a & b & ->).
  simpl in E. rewrite E.
  replace (pre ++ (a ++ sub ++ b) ++ post)
    with ((pre ++ a) ++ sub ++ (b ++ post))
    by (rewrite <- !app_assoc; reflexivity).
  apply contains_app.
Qed.

Lemma nonempty_filter_existsb {A} (f : A -> bool) (l : list A) :
  nonempty_list (List.filter f l) = existsb f l.
Proof.
  induction l as [|x l IH]; [reflexivity|].
  simpl. destruct (f x); [reflexivity|exact IH].
Qed.

Lemma existsb_agree {A} (f g : A -> bool) (l : list A) :
  (forall x, In x l -> f x = g x) -> existsb f l = existsb g l.
Proof.
  induction l as [|x l IH]; intros Hfg; [reflexivity|].
  simpl. rewrite (Hfg x (or_introl eq_refl)), IH; [reflexivity|].
  intros y Hy. apply Hfg. right. exact Hy.
Qed.

End TokenFacts.

(** ** The decision as a function of the tokens and of the ignore set *)

Section Verdict.

Context `{Lower}.

(** The answer depends on the handler only, not on what was logged, and
    there always is one. *)
Lemma should_interrupt_would (o : pyobj) (w : World) :
  result (should_interrupt o) w = Return (would_interrupt (self w) o).
Proof.
  unfold would_interrupt.
  destruct (truthy o) eqn:Ht.
  2: { unfold result. rewrite !should_interrupt_falsy by exact Ht.
       reflexivity. }
  destruct o as [|s]; [discriminate Ht|]. simpl in Ht.
  destruct (agent_state (self w)) eqn:Hw.
  - rewrite (should_interrupt_speaking s w Ht Hw).
    rewrite (should_interrupt_speaking s {| self := self w; logged := [] |}
               Ht Hw).
    reflexivity.
  - rewrite (should_interrupt_silent s w Ht Hw).
    rewrite (should_interrupt_silent s {| self := self w; logged := [] |}
               Ht Hw).
    reflexivity.
Qed.

(** X1: while the agent is speaking, the answer is a function of the tokens
    of the normalized input alone: [True] exactly when some token contains a
    command string or is not an ignore word. *)
Theorem speaking_decision_by_tokens (w : World) (s : str) :
  agent_state (self w) = SPEAKING ->
  interrupt_words (self w) = list_to_set command_words ->
  result (should_interrupt (PyStr s)) w =
  Return
    (existsb (fun t => existsb (fun c => contains c t) command_words
                       || negb (bool_decide (t ∈ ignore_words (self w))))
             (split (strip (lower s)))).
Proof.
  intros Hw Hcmds.
  destruct (nonempty s) eqn:Hs.
  2: { unfold result. rewrite should_interrupt_falsy by exact Hs.
       destruct s; [|discriminate Hs]. rewrite lower_nil. reflexivity. }
  rewrite (should_interrupt_speaking s w Hs Hw). f_equal.
  destruct (List.find _ _) as [word|] eqn:E.
  - symmetry. apply find_some in E as [Hin Hsub].
    apply list_elem_of_In, elem_of_elements in Hin.
    rewrite Hcmds in Hin. apply elem_of_list_to_set in Hin.
    destruct (command_in_token word _ Hin Hsub) as (c' & Hc' & Hex).
    apply Exists_exists in Hex as (t & Ht & Hsub').
    apply existsb_exists. exists t. split; [apply list_elem_of_In, Ht|].
    apply orb_true_iff. left. apply existsb_exists.
    exists c'. split; [apply list_elem_of_In, Hc'|exact Hsub'].
  - rewrite nonempty_filter_existsb.
    apply existsb_agree. intros t Ht.
    destruct (existsb (fun c => contains c t) command_words) eqn:Ec;
      [|reflexivity].
    apply existsb_exists in Ec as (c & Hc & Hsub).
    pose proof (contains_in_token c t _ Ht Hsub) as Hin.
    rewrite (find_none _ _ E c) in Hin; [discriminate Hin|].
    apply list_elem_of_In, elem_of_elements. rewrite Hcmds.
    apply elem_of_list_to_set, list_elem_of_In, Hc.
Qed.

End Verdict.

(** ** Changing the ignore set, the case and the surrounding whitespace *)

Section Variations.

Context `{Lower}.

(** Two ignore sets that agree on the tokens of an input give the same
    answer to it. *)
Lemma should_interrupt_ignore_agree (w : World) (ign : gset str) (s : str) :
  (forall t, In t (split (strip (lower s))) ->
             (t ∈ ign <-> t ∈ ignore_words (self w))) ->
  result (should_interrupt (PyStr s)) (with_ignore_words ign w)
  = result (should_interrupt (PyStr s)) w.
Proof.
  intros Hagree.
  destruct (nonempty s) eqn:Hs.
  2: { unfold result. rewrite !should_interrupt_falsy by exact Hs.
       reflexivity. }
  destruct (agent_state (self w)) eqn:Hw.
  - rewrite (should_interrupt_speaking s w Hs Hw).
    rewrite (should_interrupt_speaking s (with_ignore_words ign w) Hs Hw).
    simpl. destruct (List.find _ _); [reflexivity|].
    do 2 f_equal. apply filter_ext_in. intros t Ht.
    f_equal. apply bool_decide_ext, Hagree, Ht.
  - rewrite (should_interrupt_silent s w Hs Hw).
    rewrite (should_interrupt_silent s (with_ignore_words ign w) Hs Hw).
    reflexivity.
Qed.

(** X2: an ignore word that is empty or holds whitespace (a phrase of
    several words) never matches: adding it to the ignore set changes no
    answer. *)
Theorem ignore_phrase_has_no_effect (w : World) (d : str) (o : pyobj) :
  nonempty d = false \/ existsb isspace d = true ->
  result (should_interrupt o)
         (with_ignore_words ({[ d ]} ∪ ignore_words (self w)) w)
  = result (should_interrupt o) w.
Proof.
  intros Hd.
  destruct o as [|s].
  { unfold result. rewrite !should_interrupt_falsy by reflexivity.
    reflexivity. }
  apply should_interrupt_ignore_agree. intros t Ht.
  pose proof (split_from_tokens (strip (lower s)) [] eq_refl) as Htok.
  rewrite Forall_forall in Htok.
  destruct (Htok t (proj2 (list_elem_of_In _ _) Ht)) as [Hne Hns].
  assert (Hneq : t <> d).
  { intros ->. destruct Hd as [Hd|Hd]; [congruence|].
    apply existsb_exists in Hd as (c & Hc & Hsp).
    rewrite forallb_forall in Hns. specialize (Hns c Hc).
    rewrite Hsp in Hns. discriminate Hns. }
  simpl. rewrite elem_of_union, elem_of_singleton.
  split; [intros [E|E]; [contradiction|exact E]|intros E; right; exact E].
Qed.

(** X3: a larger ignore set can only silence more: an input that interrupts
    with the larger ignore set interrupts with the smaller one. *)
Theorem fewer_ignore_words_interrupt_more
        (w : World) (ign ign' : gset str) (o : pyobj) :
  ign ⊆ ign' ->
  result (should_interrupt o) (with_ignore_words ign' w) = Return true ->
  result (should_interrupt o) (with_ignore_words ign w) = Return true.
Proof.
  intros Hsub.
  destruct (truthy o) eqn:Ht.
  2: { unfold result. rewrite !should_interrupt_falsy by exact Ht.
       intros E. exact E. }
  destruct o as [|s]; [discriminate Ht|]. simpl in Ht.
  destruct (agent_state (self w)) eqn:Hw.
  - rewrite (should_interrupt_speaking s (with_ignore_words ign' w) Ht Hw).
    rewrite (should_interrupt_speaking s (with_ignore_words ign w) Ht Hw).
    simpl. destruct (List.find _ _); [intros _; reflexivity|].
    rewrite !nonempty_filter_existsb. intros [= E]. f_equal.
    apply existsb_exists in E as (t & Hin & Hnot).
    apply existsb_exists. exists t. split; [exact Hin|].
    apply negb_true_iff, bool_decide_eq_false in Hnot.
    apply negb_true_iff, bool_decide_eq_false.
    intros Hin'. apply Hnot, Hsub, Hin'.
  - intros _. exact (should_interrupt_silent s (with_ignore_words ign w) Ht Hw).
Qed.

Lemma map_lower_length (s : str) :
  nonempty (List.map ascii_lower_char s) = nonempty s.
Proof. destruct s; reflexivity. Qed.

(** X4: two ASCII utterances that differ only in the case of their letters
    get the same answer. *)
Theorem ascii_case_is_ignored (w : World) (s1 s2 : str) :
  forallb is_ascii s1 = true ->
  forallb is_ascii s2 = true ->
  List.map ascii_lower_char s1 = List.map ascii_lower_char s2 ->
  result (should_interrupt (PyStr s1)) w
  = result (should_interrupt (PyStr s2)) w.
Proof.
  intros H1 H2 E.
  assert (Hl : lower s1 = lower s2).
  { rewrite (lower_ascii s1 H1), (lower_ascii s2 H2). exact E. }
  assert (Hne : nonempty s1 = nonempty s2).
  { rewrite <- (map_lower_length s1), <- (map_lower_length s2), E.
    reflexivity. }
  destruct (nonempty s2) eqn:Hs2.
  2: { unfold result. rewrite !should_interrupt_falsy by assumption.
       reflexivity. }
  destruct (agent_state (self w)) eqn:Hw.
  - rewrite (should_interrupt_speaking s1 w Hne Hw).
    rewrite (should_interrupt_speaking s2 w Hs2 Hw).
    rewrite Hl. reflexivity.
  - rewrite (should_interrupt_silent s1 w Hne Hw).
    rewrite (should_interrupt_silent s2 w Hs2 Hw).
    reflexivity.
Qed.

Lemma lstrip_app_whitespace (pre s : str) :
  forallb isspace pre = true -> lstrip (pre ++ s) = lstrip s.
Proof.
  induction pre as [|c pre IH]; [reflexivity|].
  simpl. intros Hp. apply andb_prop in Hp as [Hc Hp].
  rewrite Hc. exact (IH Hp).
Qed.

Lemma rstrip_app_whitespace (s post : str) :
  forallb isspace post = true -> rstrip (s ++ post) = rstrip s.
Proof.
  intros Hp. unfold rstrip.
  rewrite rev_app_distr, lstrip_app_whitespace; [reflexivity|].
  rewrite forallb_rev. exact Hp.
Qed.

Lemma strip_app_whitespace (s post : str) :
  forallb isspace post = true -> strip (s ++ post) = strip s.
Proof.
  intros Hp. unfold strip.
  induction s as [|c s IH]; simpl.
  - rewrite (lstrip_whitespace post Hp). reflexivity.
  - destruct (isspace c); [exact IH|].
    exact (rstrip_app_whitespace (c :: s) post Hp).
Qed.

(** Whitespace around a text is dropped by [strip()]. *)
Lemma strip_padded (pre s post : str) :
  forallb isspace pre = true -> forallb isspace post = true ->
  strip (pre ++ s ++ post) = strip s.
Proof.
  intros Hpre Hpost.
  rewrite <- (strip_app_whitespace s post Hpost).
  unfold strip. rewrite (lstrip_app_whitespace pre _ Hpre). reflexivity.
Qed.

Lemma lower_ascii_whitespace (p : str) :
  forallb is_ascii p = true -> forallb isspace p = true ->
  List.map ascii_lower_char p = p.
Proof.
  intros Ha Hs. rewrite <- (lower_ascii p Ha). exact (lower_space p Hs).
Qed.

(** X5: ASCII whitespace before and after a non-empty ASCII utterance does
    not change the answer. *)
Theorem surrounding_whitespace_is_ignored (w : World) (pre s post : str) :
  nonempty s = true ->
  forallb is_ascii (pre ++ s ++ post) = true ->
  forallb isspace pre = true ->
  forallb isspace post = true ->
  result (should_interrupt (PyStr (pre ++ s ++ post))) w
  = result (should_interrupt (PyStr s)) w.
Proof.
  intros Hs Ha Hpre Hpost.
  pose proof Ha as Ha'.
  rewrite !forallb_app in Ha'.
  apply andb_prop in Ha' as [Hapre Ha']. apply andb_prop in Ha' as [Has Hapost].
  assert (Hl : strip (lower (pre ++ s ++ post)) = strip (lower s)).
  { rewrite (lower_ascii _ Ha), (lower_ascii s Has), !map_app.
    rewrite (lower_ascii_whitespace pre Hapre Hpre).
    rewrite (lower_ascii_whitespace post Hapost Hpost).
    apply strip_padded; assumption. }
  assert (Hne : nonempty (pre ++ s ++ post) = true).
  { destruct pre; [|reflexivity]. destruct s; [discriminate Hs|reflexivity]. }
  destruct (agent_state (self w)) eqn:Hw.
  - rewrite (should_interrupt_speaking _ w Hne Hw).
    rewrite (should_interrupt_speaking s w Hs Hw).
    rewrite Hl. reflexivity.
  - rewrite (should_interrupt_silent _ w Hne Hw).
    rewrite (should_interrupt_silent s w Hs Hw).
    reflexivity.
Qed.

End Variations.

(** ** What a call logs, and sequences of state changes *)

Section Effects.

Context `{Lower}.

(** X6: [should_interrupt] hands the logger nothing for an empty input or
    [None], and exactly one record otherwise, at level INFO when it decides
    to interrupt a speaking agent and at level DEBUG in all other cases. *)
Theorem should_interrupt_logs_once (w : World) (o : pyobj) :
  exists msg : str,
    logged (after (should_interrupt o) w) =
    logged w ++
    (if truthy o
     then [(if bool_decide (agent_state (self w) = SPEAKING)
               && would_interrupt (self w) o
            then INFO else DEBUG, msg)]
     else []).
Proof.
  pose proof (should_interrupt_would o w) as Hres.
  unfold result in Hres. unfold after.
  destruct (truthy o) eqn:Ht.
  2: { exists []. rewrite should_interrupt_falsy by exact Ht.
       simpl. rewrite app_nil_r. reflexivity. }
  destruct o as [|s]; [discriminate Ht|]. simpl in Ht.
  revert Hres.
  unfold should_interrupt, is_speaking, get_self, call_lower, log, bind, ret.
  cbn. rewrite Ht. cbn.
  destruct (bool_decide (agent_state (self w) = SPEAKING)); cbn.
  2: { intros _. eexists. reflexivity. }
  destruct (List.find _ _); cbn.
  { intros [= <-]. eexists. reflexivity. }
  destruct (List.filter _ _); cbn; intros [= <-]; eexists; reflexivity.
Qed.

Lemma result_then {A} (m : M unit) (k : M A) (w : World) :
  result m w = Return tt ->
  result (m ;;; k) w = result k (after m w).
Proof.
  unfold result, after, bind. destruct (m w) as [[[]|e] w']; simpl;
    [reflexivity|discriminate].
Qed.

Lemma set_state_returns (state : AgentState) (w : World) :
  result (set_state state) w = Return tt.
Proof. reflexivity. Qed.

Lemma set_states_returns (states : list AgentState) : forall w,
  result (set_states states) w = Return tt.
Proof.
  induction states as [|state rest IH]; intros w; [reflexivity|].
  cbn [set_states]. rewrite result_then by apply set_state_returns. apply IH.
Qed.

Lemma after_then {A} (m : M unit) (k : M A) (w : World) :
  result m w = Return tt ->
  after (m ;;; k) w = after k (after m w).
Proof.
  unfold result, after, bind. destruct (m w) as [[[]|e] w']; simpl;
    [reflexivity|discriminate].
Qed.

Lemma set_states_last (states : list AgentState) (state : AgentState) :
  forall w,
    self (after (set_states (states ++ [state])) w)
    = self (after (set_state state) w).
Proof.
  induction states as [|s0 rest IH]; intros w.
  - cbn [app set_states].
    rewrite after_then by apply set_state_returns. reflexivity.
  - cbn [app set_states].
    rewrite after_then by apply set_state_returns.
    rewrite IH. reflexivity.
Qed.

(** X7: after any sequence of [set_state] calls, [should_interrupt] answers
    as if only the last of them had been made. *)
Theorem last_set_state_decides
        (states : list AgentState) (state : AgentState)
        (o : pyobj) (w : World) :
  result (set_states (states ++ [state]) ;;; should_interrupt o) w
  = result (set_state state ;;; should_interrupt o) w.
Proof.
  rewrite !result_then
    by (apply set_states_returns || apply set_state_returns).
  rewrite !should_interrupt_would, set_states_last. reflexivity.
Qed.

End Effects.

(** ** [load_config]: ignore words from the environment *)

Section LoadConfig.

Context `{Lower}.

Lemma split_on_from_length (sep : char) (s : str) : forall cur,
  length (split_on_from sep cur s)
  = S (length (List.filter (fun c => c =? sep) s)).
Proof.
  induction s as [|c s IH]; intros cur; [reflexivity|].
  simpl. destruct (c =? sep); simpl; rewrite IH; reflexivity.
Qed.

(** The pieces hold the characters that are not separators. *)
Lemma split_on_from_forall (sep : char) (P : char -> bool) (s : str) :
  forall cur,
    forallb P cur = true ->
    forallb (fun c => (c =? sep) || P c) s = true ->
    Forall (fun p => forallb P p = true) (split_on_from sep cur s).
Proof.
  induction s as [|c s IH]; intros cur Hcur Hs; simpl.
  - constructor; [|constructor]. rewrite forallb_rev. exact Hcur.
  - simpl in Hs. apply andb_prop in Hs as [Hc Hs].
    destruct (c =? sep) eqn:E.
    + constructor; [rewrite forallb_rev; exact Hcur|].
      apply IH; [reflexivity|exact Hs].
    + apply IH; [|exact Hs]. simpl. simpl in Hc. rewrite Hc, Hcur. reflexivity.
Qed.

Lemma split_on_from_run (sep : char) (run rest : str) : forall cur,
  existsb (fun c => c =? sep) run = false ->
  split_on_from sep cur (run ++ rest) = split_on_from sep (rev run ++ cur) rest.
Proof.
  induction run as [|c run IH]; intros cur Hrun; [reflexivity|].
  simpl in Hrun. apply orb_false_elim in Hrun as [Hc Hrun].
  simpl. rewrite Hc, (IH (c :: cur) Hrun), <- app_assoc. reflexivity.
Qed.

(** [split_on] reads back what [join] wrote. *)
Lemma split_on_join (sep : char) (words : list str) :
  nonempty_list words = true ->
  Forall (fun w => existsb (fun c => c =? sep) w = false) words ->
  split_on sep (join sep words) = words.
Proof.
  unfold split_on. intros Hne Hall.
  induction Hall as [|w rest Hw Hrest IH]; [discriminate Hne|].
  simpl. destruct rest as [|w' rest'].
  - pose proof (split_on_from_run sep w [] [] Hw) as E.
    rewrite !app_nil_r in E. rewrite E. simpl.
    rewrite rev_involutive. reflexivity.
  - rewrite (split_on_from_run sep w _ [] Hw). simpl.
    rewrite N.eqb_refl, app_nil_r, rev_involutive.
    f_equal. apply IH. reflexivity.
Qed.

Lemma lstrip_head (s : str) (c : char) (t : str) :
  lstrip s = c :: t -> isspace c = false.
Proof.
  induction s as [|d s IH]; simpl; [discriminate|].
  destruct (isspace d) eqn:E; [exact IH|].
  intros [= <- _]. exact E.
Qed.

Lemma lstrip_fixed (s : str) :
  match s with [] => True | c :: _ => isspace c = false end ->
  lstrip s = s.
Proof. destruct s as [|c s]; [reflexivity|]. simpl. intros ->. reflexivity. Qed.

Lemma lstrip_idempotent (s : str) : lstrip (lstrip s) = lstrip s.
Proof.
  apply lstrip_fixed. destruct (lstrip s) as [|c t] eqn:E; [exact I|].
  exact (lstrip_head s c t E).
Qed.

(** What [lstrip] removes is whitespace. *)
Lemma lstrip_decompose (s : str) :
  exists ws, forallb isspace ws = true /\ s = ws ++ lstrip s.
Proof.
  induction s as [|c s (ws & Hws & E)]; [exists []; split; reflexivity|].
  simpl. destruct (isspace c) eqn:Hc.
  - exists (c :: ws). simpl. rewrite Hc, Hws. split; [reflexivity|].
    f_equal. exact E.
  - exists []. split; reflexivity.
Qed.

Lemma rstrip_decompose (s : str) :
  exists ws, forallb isspace ws = true /\ s = rstrip s ++ ws.
Proof.
  destruct (lstrip_decompose (rev s)) as (ws & Hws & E).
  exists (rev ws). rewrite forallb_rev. split; [exact Hws|].
  unfold rstrip. rewrite <- rev_app_distr, <- E, rev_involutive. reflexivity.
Qed.

Lemma rstrip_idempotent (s : str) : rstrip (rstrip s) = rstrip s.
Proof.
  unfold rstrip. rewrite rev_involutive, lstrip_idempotent. reflexivity.
Qed.

(** A stripped string is left as it is by [strip()]. *)
Lemma strip_idempotent (s : str) : strip (strip s) = strip s.
Proof.
  unfold strip at 1.
  assert (Hl : lstrip (strip s) = strip s).
  { apply lstrip_fixed. unfold strip.
    destruct (rstrip (lstrip s)) as [|c t] eqn:E; [exact I|].
    destruct (rstrip_decompose (lstrip s)) as (ws & _ & D).
    rewrite E in D. exact (lstrip_head s c (t ++ ws) D). }
  rewrite Hl. unfold strip. apply rstrip_idempotent.
Qed.

Lemma lstrip_forall (P : char -> bool) (s : str) :
  forallb P s = true -> forallb P (lstrip s) = true.
Proof.
  induction s as [|c s IH]; [reflexivity|].
  simpl. intros Hs. destruct (isspace c); [|exact Hs].
  apply andb_prop in Hs as [_ Hs]. exact (IH Hs).
Qed.

(** [strip()] adds no character. *)
Lemma strip_forall (P : char -> bool) (s : str) :
  forallb P s = true -> forallb P (strip s) = true.
Proof.
  intros Hs. unfold strip, rstrip.
  rewrite forallb_rev. apply lstrip_forall.
  rewrite forallb_rev. apply lstrip_forall, Hs.
Qed.

(** X8: [load_config] gives [None] exactly when [IGNORE_WORDS] is unset or
    empty; otherwise it gives one word more than the value has commas, so
    never an empty list. *)
Theorem load_config_entries (IGNORE_WORDS : option str) :
  match config_ignore_words (load_config IGNORE_WORDS) with
  | None => getenv IGNORE_WORDS [] = []
  | Some words =>
      nonempty (getenv IGNORE_WORDS []) = true /\
      length words
      = S (length (List.filter (fun c => c =? comma)
                               (getenv IGNORE_WORDS [])))
  end.
Proof.
  unfold load_config. simpl.
  destruct (getenv IGNORE_WORDS []) as [|c s] eqn:E; simpl; [reflexivity|].
  split; [reflexivity|].
  rewrite length_map. apply (split_on_from_length comma (c :: s) []).
Qed.

(** X9: every word [load_config] returns is free of commas and already
    stripped of surrounding whitespace. *)
Theorem load_config_words_stripped
        (IGNORE_WORDS : option str) (words : list str) (word : str) :
  config_ignore_words (load_config IGNORE_WORDS) = Some words ->
  In word words ->
  existsb (fun c => c =? comma) word = false /\ strip word = word.
Proof.
  unfold load_config. simpl.
  destruct (nonempty (getenv IGNORE_WORDS [])); [|discriminate].
  intros [= <-] Hin. apply in_map_iff in Hin as (piece & <- & Hpiece).
  split; [|apply strip_idempotent].
  pose proof (split_on_from_forall comma (fun c => negb (c =? comma))
                (getenv IGNORE_WORDS []) [] eq_refl) as Hall.
  rewrite Forall_forall in Hall.
  assert (Hp : forallb (fun c => negb (c =? comma)) piece = true).
  { apply Hall; [|apply list_elem_of_In, Hpiece].
    apply forallb_forall. intros c _. apply orb_negb_r. }
  apply (strip_forall (fun c => negb (c =? comma)) piece) in Hp.
  destruct (existsb (fun c => c =? comma) (strip piece)) eqn:Ex;
    [|reflexivity].
  apply existsb_exists in Ex as (c & Hc & Hcomma).
  rewrite forallb_forall in Hp. specialize (Hp c Hc).
  rewrite Hcomma in Hp. discriminate Hp.
Qed.

(** X10: joining with commas a list of comma-free, stripped words and
    putting the result, if it is not empty, in [IGNORE_WORDS] makes
    [load_config] return that list. *)
Theorem load_config_reads_joined_words (words : list str) :
  nonempty (join comma words) = true ->
  Forall (fun w => existsb (fun c => c =? comma) w = false /\ strip w = w)
         words ->
  config_ignore_words (load_config (Some (join comma words))) = Some words.
Proof.
  intros Hne Hall. unfold load_config. simpl. rewrite Hne. f_equal.
  assert (Hmap : List.map strip words = words).
  { clear Hne. induction Hall as [|w rest [_ Hw] _ IH]; [reflexivity|].
    simpl. rewrite Hw, IH. reflexivity. }
  rewrite split_on_join.
  - exact Hmap.
  - destruct words; [discriminate Hne|reflexivity].
  - eapply Forall_impl; [exact Hall|]. intros w [Hw _]. exact Hw.
Qed.

(** X11: when [IGNORE_WORDS] is set to whitespace and commas only, the
    handler built from [load_config] ignores nothing: while it is speaking,
    every input that has a token interrupts. *)
Theorem blank_ignore_words_disable_filtering (value : str) (s : str) :
  nonempty value = true ->
  forallb (fun c => (c =? comma) || isspace c) value = true ->
  nonempty_list (split (strip (lower s))) = true ->
  result (should_interrupt (PyStr s))
         (prepared (config_ignore_words (load_config (Some value))) SPEAKING)
  = Return true.
Proof.
  intros Hne Hblank Htok.
  assert (Hs : nonempty s = true).
  { apply lower_nonempty, strip_nonempty, split_nonempty, Htok. }
  set (W := prepared _ SPEAKING).
  rewrite (should_interrupt_speaking s W Hs eq_refl).
  destruct (List.find _ _); [reflexivity|].
  rewrite filter_ignored_nonempty; [reflexivity|].
  change (ignore_words (self W))
    with (ignore_words
            (__init__ (config_ignore_words (load_config (Some value))))).
  destruct (split (strip (lower s))) as [|t rest] eqn:E; [discriminate Htok|].
  apply Exists_cons_hd.
  pose proof (split_from_tokens (strip (lower s)) [] eq_refl) as Hwf.
  unfold split in E. rewrite E in Hwf.
  apply Forall_cons in Hwf as [[Ht _] _].
  unfold load_config, __init__, getenv. cbn [config_ignore_words ignore_words].
  rewrite Hne.
  pose proof (split_on_from_forall comma isspace value [] eq_refl Hblank)
    as Hpieces.
  unfold split_on.
  destruct (List.map strip (split_on_from comma [] value)) as [|x l] eqn:Em.
  { pose proof (split_on_from_length comma value []) as Hlen.
    apply (f_equal (@length str)) in Em. rewrite length_map in Em.
    simpl in Em. rewrite Hlen in Em. discriminate Em. }
  cbn [or_list]. rewrite <- Em. intros Hin.
  apply elem_of_list_to_set, list_elem_of_In, in_map_iff in Hin
    as (piece & Hstrip & Hpiece).
  rewrite Forall_forall in Hpieces.
  rewrite (strip_whitespace piece) in Hstrip
    by (apply Hpieces, list_elem_of_In, Hpiece).
  subst t. discriminate Ht.
Qed.

End LoadConfig.

(** ** The agent: the transcription buffer and incoming transcriptions *)

Section Agent.

Import IntelligentAgent.

Context `{Lower}.

(** A call of [should_interrupt], whole: its answer, the handler left as it
    was, and what it adds to the log. *)
Lemma should_interrupt_run (o : pyobj) (w : World) :
  exists records,
    should_interrupt o w
    = (Return (would_interrupt (self w) o),
       {| self := self w; logged := logged w ++ records |}).
Proof.
  pose proof (should_interrupt_would o w) as Hres.
  pose proof (should_interrupt_after o w) as Hself.
  unfold result in Hres. unfold after in Hself.
  destruct (should_interrupt o w) as [r w'] eqn:E. simpl in Hres, Hself.
  subst r. rewrite <- Hself.
  assert (Hlog : exists records, logged w' = logged w ++ records).
  { revert E.
    unfold should_interrupt, is_speaking, get_self, call_lower, log, bind, ret.
    destruct (truthy o); cbn.
    2: { intros [= _ <-]. exists []. rewrite app_nil_r. reflexivity. }
    destruct o as [|s]; cbn; [intros [= <-]|].
    destruct (bool_decide (agent_state (self w) = SPEAKING)); cbn.
    2: { intros [= _ <-]. eexists. reflexivity. }
    destruct (List.find _ _); cbn.
    { intros [= _ <-]. eexists. reflexivity. }
    destruct (List.filter _ _); cbn; intros [= _ <-]; eexists; reflexivity. }
  destruct Hlog as (records & Hlog). exists records.
  rewrite <- Hlog. destruct w'. reflexivity.
Qed.

(** The loop, from a buffer it is handed. *)
Lemma should_stop_speech_loop_run (buffer : list pyobj) : forall a,
  exists records,
    _should_stop_speech_loop buffer a
    = (Return (existsb (would_interrupt (self (base a))) buffer),
       {| base := {| self := self (base a);
                     logged := logged (base a) ++ records |};
          _current_speech_task := _current_speech_task a;
          _transcription_buffer :=
            match buffer with
            | [] => _transcription_buffer a
            | _ :: _ => after_first (would_interrupt (self (base a))) buffer
            end;
          cancelled := cancelled a |}).
Proof.
  induction buffer as [|t rest IH]; intros a.
  - exists []. rewrite app_nil_r. destruct a as [[? ?] ? ? ?]. reflexivity.
  - cbn [_should_stop_speech_loop existsb after_first].
    unfold abind, set_buffer, lift. cbn -[should_interrupt].
    destruct (should_interrupt_run t (base a)) as (records & E).
    rewrite E. cbn.
    destruct (would_interrupt (self (base a)) t) eqn:Ew; cbn.
    + exists records. reflexivity.
    + match goal with
      | |- context [_should_stop_speech_loop rest ?a1] =>
          destruct (IH a1) as (records' & E')
      end.
      rewrite E'. cbn. exists (records ++ records').
      rewrite <- app_assoc. destruct rest; reflexivity.
Qed.

(** The loop re-reads the buffer of the object at each turn: what
    [_should_stop_speech] does is one turn of [while], then itself again. *)
Lemma should_stop_speech_unfold (a : AgentWorld) :
  _should_stop_speech a =
  match _transcription_buffer a with
  | [] => (Return false, a)
  | transcription :: rest =>
      match lift (should_interrupt transcription)
                 (snd (set_buffer rest a)) with
      | (Return true, a') => (Return true, a')
      | (Return false, a') => _should_stop_speech a'
      | (Raise e, a') => (Raise e, a')
      end
  end.
Proof.
  unfold _should_stop_speech, abind, get_buffer.
  destruct (_transcription_buffer a) as [|t rest] eqn:E; [reflexivity|].
  cbn [_should_stop_speech_loop]. unfold abind at 1.
  cbn [set_buffer snd]. unfold abind at 1.
  destruct (lift (should_interrupt t) _) as [[[|]|e] a'] eqn:El;
    try reflexivity.
  unfold lift in El. injection El as _ <-. reflexivity.
Qed.

(** X12: [_should_stop_speech] answers [True] exactly when some buffered
    transcription would interrupt; it leaves in the buffer what follows the
    first such transcription (nothing when there is none), and it leaves the
    handler, the playback task and the cancellations as they were. *)
Theorem should_stop_speech_scans_buffer (a : AgentWorld) :
  exists records,
    _should_stop_speech a
    = (Return (existsb (would_interrupt (self (base a)))
                       (_transcription_buffer a)),
       {| base := {| self := self (base a);
                     logged := logged (base a) ++ records |};
          _current_speech_task := _current_speech_task a;
          _transcription_buffer :=
            after_first (would_interrupt (self (base a)))
                        (_transcription_buffer a);
          cancelled := cancelled a |}).
Proof.
  unfold _should_stop_speech, abind, get_buffer.
  destruct (should_stop_speech_loop_run (_transcription_buffer a) a)
    as (records & E).
  exists records. rewrite E.
  destruct (_transcription_buffer a); reflexivity.
Qed.

(** X13: a transcription that would not interrupt, received while the agent
    is speaking, is dropped: [_process_user_message] is not called, the
    playback task is not cancelled, and the buffer is emptied, of this
    transcription and of any that was waiting in it. *)
Theorem filler_while_speaking_is_dropped
        (transcription : pyobj) (a : AgentWorld) :
  agent_state (self (base a)) = SPEAKING ->
  would_interrupt (self (base a)) transcription = false ->
  exists records,
  forall _process_user_message : pyobj -> AM unit,
    _handle_user_input _process_user_message transcription a
    = (Return tt,
       {| base := {| self := self (base a);
                     logged := logged (base a) ++ records |};
          _current_speech_task := _current_speech_task a;
          _transcription_buffer := [];
          cancelled := cancelled a |}).
Proof.
  intros Hw Hno.
  destruct (should_interrupt_run transcription
              {| self := self (base a);
                 logged := logged (base a)
                           ++ [(DEBUG, lit "Received transcription: '"
                                       ++ format transcription ++ lit "'")] |})
    as (records & E).
  eexists. intros process.
  unfold _handle_user_input, abind, lift, get_buffer, set_buffer, get_task,
         set_task, cancel, aret, is_speaking, get_self, log, bind, ret.
  cbn -[should_interrupt lit].
  rewrite Hw, (bool_decide_eq_true_2 _ eq_refl). cbn -[should_interrupt lit].
  cbn -[should_interrupt lit] in E.
  match goal with
  | |- context [should_interrupt transcription ?w1] =>
      pose proof (E : should_interrupt transcription w1 = _) as E';
      rewrite E'
  end.
  cbn -[lit].
  rewrite Hno. cbn -[lit].
  rewrite <- !app_assoc. reflexivity.
Qed.

Lemma handle_user_input_silent
      (_process_user_message : pyobj -> AM unit)
      (transcription : pyobj) (a : AgentWorld) :
  agent_state (self (base a)) = SILENT ->
  _handle_user_input _process_user_message transcription a
  = _process_user_message transcription
      {| base := {| self := self (base a);
                    logged := logged (base a)
                              ++ [(DEBUG, lit "Received transcription: '"
                                          ++ format transcription
                                          ++ lit "'")] |};
         _current_speech_task := _current_speech_task a;
         _transcription_buffer := _transcription_buffer a ++ [transcription];
         cancelled := cancelled a |}.
Proof.
  intros Hw.
  unfold _handle_user_input, abind, lift, get_buffer, set_buffer, get_task,
         set_task, cancel, aret, is_speaking, get_self, log, bind, ret.
  cbn -[should_interrupt lit].
  rewrite Hw. reflexivity.
Qed.

(** X14: while the agent is silent, every transcription, an empty one
    included, is appended to the buffer and handed to
    [_process_user_message]; [should_interrupt] is not asked, and the
    transcription is still in the buffer when that call starts. *)
Theorem silent_input_is_processed
        (_process_user_message : pyobj -> AM unit)
        (transcription : pyobj) (a : AgentWorld) :
  agent_state (self (base a)) = SILENT ->
  _handle_user_input _process_user_message transcription a
  = _process_user_message transcription
      {| base := {| self := self (base a);
                    logged := logged (base a)
                              ++ [(DEBUG, lit "Received transcription: '"
                                          ++ format transcription
                                          ++ lit "'")] |};
         _current_speech_task := _current_speech_task a;
         _transcription_buffer := _transcription_buffer a ++ [transcription];
         cancelled := cancelled a |}.
Proof. apply handle_user_input_silent. Qed.

(** X15: a transcription that would interrupt, received while the agent is
    speaking, cancels the playback task if there is one, clears
    [_current_speech_task], and is then handed to [_process_user_message],
    the buffer holding it after what was waiting. *)
Theorem interruption_cancels_playback
        (transcription : pyobj) (a : AgentWorld) :
  agent_state (self (base a)) = SPEAKING ->
  would_interrupt (self (base a)) transcription = true ->
  exists records,
  forall _process_user_message : pyobj -> AM unit,
    _handle_user_input _process_user_message transcription a
    = _process_user_message transcription
        {| base := {| self := self (base a);
                      logged := logged (base a) ++ records |};
           _current_speech_task := None;
           _transcription_buffer := _transcription_buffer a ++ [transcription];
           cancelled := cancelled a
                        ++ match _current_speech_task a with
                           | Some task => [task]
                           | None => []
                           end |}.
Proof.
  intros Hw Hyes.
  destruct (should_interrupt_run transcription
              {| self := self (base a);
                 logged := logged (base a)
                           ++ [(DEBUG, lit "Received transcription: '"
                                       ++ format transcription ++ lit "'")] |})
    as (records & E).
  exists ([(DEBUG, lit "Received transcription: '"
                   ++ format transcription ++ lit "'")]
          ++ records
          ++ [(INFO, lit "Interrupting speech for: '"
                     ++ format transcription ++ lit "'")]).
  intros process.
  unfold _handle_user_input, abind, lift, get_buffer, set_buffer, get_task,
         set_task, cancel, aret, is_speaking, get_self, log, bind, ret.
  cbn -[should_interrupt lit].
  rewrite Hw, (bool_decide_eq_true_2 _ eq_refl). cbn -[should_interrupt lit].
  cbn -[should_interrupt lit] in E.
  match goal with
  | |- context [should_interrupt transcription ?w1] =>
      pose proof (E : should_interrupt transcription w1 = _) as E';
      rewrite E'
  end.
  cbn -[lit].
  rewrite Hyes. cbn -[lit].
  destruct (_current_speech_task a); cbn -[lit];
    rewrite <- !app_assoc, ?app_nil_r; reflexivity.
Qed.

(** X16: a transcription handled while the agent is silent is still in the
    buffer afterwards. If the agent is then set to SPEAKING and
    [_should_stop_speech] is called, which is how [_play_speech] begins, the
    answer is [True] as soon as that transcription, or one that was waiting,
    would interrupt a speaking agent. *)
Theorem accepted_transcription_is_scanned_again
        (transcription : pyobj) (a : AgentWorld) :
  agent_state (self (base a)) = SILENT ->
  fst ((_handle_user_input (fun _ => aret tt) transcription ;;~
        lift (set_state SPEAKING) ;;~
        _should_stop_speech) a)
  = Return (existsb
              (would_interrupt (self (after (set_state SPEAKING) (base a))))
              (_transcription_buffer a ++ [transcription])).
Proof.
  intros Hw.
  unfold abind at 1.
  rewrite (handle_user_input_silent _ transcription a Hw).
  cbn [aret]. unfold abind at 1. cbn -[_should_stop_speech lit].
  unfold _should_stop_speech, abind, get_buffer.
  cbn -[_should_stop_speech_loop lit].
  match goal with
  | |- context [_should_stop_speech_loop ?b ?a1] =>
      destruct (should_stop_speech_loop_run b a1) as (records & E)
  end.
  rewrite E. reflexivity.
Qed.

End Agent.

(** ** The properties above on inputs *)

Lemma speaking_decision_by_tokens_witness :
  result (should_interrupt (PyStr (lit "I know"))) (prepared None SPEAKING)
  = Return true.
Proof.
  exact (speaking_decision_by_tokens
           (prepared None SPEAKING) (lit "I know") eq_refl eq_refl).
Defined.

Lemma ignore_phrase_has_no_effect_witness :
  result (should_interrupt (PyStr (lit "uh huh")))
         (with_ignore_words
            ({[ lit "uh huh" ]}
             ∪ ignore_words (self (prepared None SPEAKING)))
            (prepared None SPEAKING))
  = result (should_interrupt (PyStr (lit "uh huh"))) (prepared None SPEAKING).
Proof.
  apply (ignore_phrase_has_no_effect
           (prepared None SPEAKING) (lit "uh huh") (PyStr (lit "uh huh"))).
  right. reflexivity.
Defined.

Lemma fewer_ignore_words_interrupt_more_witness :
  result (should_interrupt (PyStr (lit "sure thing")))
         (with_ignore_words (list_to_set [lit "sure"])
                            (prepared None SPEAKING))
  = Return true.
Proof.
  apply (fewer_ignore_words_interrupt_more
           (prepared None SPEAKING)
           (list_to_set [lit "sure"])
           (list_to_set [lit "sure"; lit "yeah"])
           (PyStr (lit "sure thing"))).
  - apply (bool_decide_unpack _). vm_compute. exact I.
  - vm_compute. reflexivity.
Defined.

Lemma ascii_case_is_ignored_witness :
  result (should_interrupt (PyStr (lit "Hold ON"))) (prepared None SPEAKING)
  = result (should_interrupt (PyStr (lit "hold on"))) (prepared None SPEAKING).
Proof.
  apply (ascii_case_is_ignored
           (prepared None SPEAKING) (lit "Hold ON") (lit "hold on"));
    reflexivity.
Defined.

Lemma surrounding_whitespace_is_ignored_witness :
  result (should_interrupt (PyStr (lit "  " ++ lit "yeah" ++ lit " ")))
         (prepared None SPEAKING)
  = result (should_interrupt (PyStr (lit "yeah"))) (prepared None SPEAKING).
Proof.
  apply (surrounding_whitespace_is_ignored
           (prepared None SPEAKING) (lit "  ") (lit "yeah") (lit " "));
    reflexivity.
Defined.

Lemma load_config_words_stripped_witness :
  existsb (fun c => c =? comma) (lit "uh huh") = false /\
  strip (lit "uh huh") = lit "uh huh".
Proof.
  apply (load_config_words_stripped
           (Some (lit "yeah, ok ,  uh huh,"))
           [lit "yeah"; lit "ok"; lit "uh huh"; lit ""]
           (lit "uh huh")).
  - reflexivity.
  - simpl. tauto.
Defined.

Lemma load_config_reads_joined_words_witness :
  config_ignore_words (load_config (Some (lit "yeah,uh huh,,ok")))
  = Some [lit "yeah"; lit "uh huh"; lit ""; lit "ok"].
Proof.
  apply (load_config_reads_joined_words
           [lit "yeah"; lit "uh huh"; lit ""; lit "ok"]).
  - reflexivity.
  - repeat constructor.
Defined.

Lemma blank_ignore_words_disable_filtering_witness :
  config_ignore_words (load_config (Some (lit " , "))) = Some [lit ""; lit ""]
  /\
  result (should_interrupt (PyStr (lit "yeah")))
         (prepared (config_ignore_words (load_config (Some (lit " , "))))
                   SPEAKING)
  = Return true.
Proof.
  split; [reflexivity|].
  apply (blank_ignore_words_disable_filtering (lit " , ") (lit "yeah"));
    reflexivity.
Defined.

Lemma filler_while_speaking_is_dropped_witness :
  let a := {| IntelligentAgent.base := prepared None SPEAKING;
              IntelligentAgent._current_speech_task := Some 1%nat;
              IntelligentAgent._transcription_buffer :=
                [PyStr (lit "tell me more")];
              IntelligentAgent.cancelled := [] |} in
  exists records,
  forall process,
    IntelligentAgent._handle_user_input process (PyStr (lit "yeah")) a
    = (Return tt,
       {| IntelligentAgent.base :=
            {| self := self (prepared None SPEAKING);
               logged := logged (prepared None SPEAKING) ++ records |};
          IntelligentAgent._current_speech_task := Some 1%nat;
          IntelligentAgent._transcription_buffer := [];
          IntelligentAgent.cancelled := [] |}).
Proof.
  apply (filler_while_speaking_is_dropped
           (PyStr (lit "yeah"))
           {| IntelligentAgent.base := prepared None SPEAKING;
              IntelligentAgent._current_speech_task := Some 1%nat;
              IntelligentAgent._transcription_buffer :=
                [PyStr (lit "tell me more")];
              IntelligentAgent.cancelled := [] |}).
  - reflexivity.
  - vm_compute. reflexivity.
Defined.

Lemma silent_input_is_processed_witness :
  fst (IntelligentAgent._handle_user_input
         (fun _ => IntelligentAgent.aret tt) (PyStr (lit ""))
         (IntelligentAgent.__init__ None []))
  = Return tt /\
  IntelligentAgent._transcription_buffer
    (snd (IntelligentAgent._handle_user_input
            (fun _ => IntelligentAgent.aret tt) (PyStr (lit ""))
            (IntelligentAgent.__init__ None [])))
  = [PyStr (lit "")].
Proof.
  rewrite (silent_input_is_processed
             (fun _ => IntelligentAgent.aret tt) (PyStr (lit ""))
             (IntelligentAgent.__init__ None []) eq_refl).
  split; reflexivity.
Defined.

Lemma interruption_cancels_playback_witness :
  let a := {| IntelligentAgent.base := prepared None SPEAKING;
              IntelligentAgent._current_speech_task := Some 1%nat;
              IntelligentAgent._transcription_buffer := [];
              IntelligentAgent.cancelled := [] |} in
  exists records,
  forall process,
    IntelligentAgent._handle_user_input process (PyStr (lit "stop")) a
    = process (PyStr (lit "stop"))
        {| IntelligentAgent.base :=
             {| self := self (prepared None SPEAKING);
                logged := logged (prepared None SPEAKING) ++ records |};
           IntelligentAgent._current_speech_task := None;
           IntelligentAgent._transcription_buffer := [PyStr (lit "stop")];
           IntelligentAgent.cancelled := [1%nat] |}.
Proof.
  apply (interruption_cancels_playback
           (PyStr (lit "stop"))
           {| IntelligentAgent.base := prepared None SPEAKING;
              IntelligentAgent._current_speech_task := Some 1%nat;
              IntelligentAgent._transcription_buffer := [];
              IntelligentAgent.cancelled := [] |}).
  - reflexivity.
  - vm_compute. reflexivity.
Defined.

Lemma accepted_transcription_is_scanned_again_witness :
  fst (IntelligentAgent.abind
         (IntelligentAgent._handle_user_input
            (fun _ => IntelligentAgent.aret tt) (PyStr (lit "tell me more")))
         (fun _ =>
            IntelligentAgent.abind
              (IntelligentAgent.lift (set_state SPEAKING))
              (fun _ => IntelligentAgent._should_stop_speech))
         (IntelligentAgent.__init__ None []))
  = Return true.
Proof.
  exact (accepted_transcription_is_scanned_again
           (PyStr (lit "tell me more"))
           (IntelligentAgent.__init__ None []) eq_refl).
Defined.
